(** * Tic-Tac-Toe: the board evaluator, the minimax move selector and the
      click handlers of [src/components/TicTacToe.tsx], embedded in Rocq.

    Arrays are lists read with stdpp's lookup [!!] and written with
    [<[i:=v]>]; the in-place writes of [minimax] are modelled by passing
    the board through every call and returning it next to the result. *)

From Stdlib Require Import ZArith Bool Lia.
From stdpp Require Import base option list.

Local Open Scope Z_scope.

(** ** Data model *)

(** [type Player = "X" | "O"] *)
Inductive Player : Set := X | O.

#[global] Instance Player_eq_dec : EqDecision Player.
Proof. solve_decision. Defined.

(** [type Board = (Player | null)[]]: [None] is [null]. *)
Abbreviation Board := (list (option Player)).

(** [Array(9).fill(null)] *)
Definition emptyBoard : Board := replicate 9 None.

(** The outcome classification of the specification; the source never
    stores it, it is what [calculateWinner] followed by the
    [every(cell => cell !== null)] test decides (lines 82-85, 30-37). *)
Inductive GameOutcome : Set :=
| IN_PROGRESS
| WIN (m : Player)
| DRAW.

(** A JavaScript number as far as [minimax] needs it: the integers and the
    two infinities [bestScore] starts from. *)
Inductive num : Set :=
| NegInf
| Num (z : Z)
| PosInf.

(** [a < b] on such numbers. *)
Definition num_lt (a b : num) : bool :=
  match a, b with
  | NegInf, NegInf => false
  | NegInf, _ => true
  | Num _, NegInf => false
  | Num x, Num y => x <? y
  | Num _, PosInf => true
  | PosInf, _ => false
  end.

(** ** Board evaluator *)

(** [board[i]] where only truthiness and [===] against a mark matter: an
    index past the end reads [undefined], which is as falsy as [null]. *)
Definition cell (board : Board) (i : nat) : option Player :=
  match board !! i with
  | Some c => c
  | None => None
  end.

(** The [lines] table of [calculateWinner]. *)
Definition lines : list (nat * nat * nat) :=
  [ (0, 1, 2); (3, 4, 5); (6, 7, 8);
    (0, 3, 6); (1, 4, 7); (2, 5, 8);
    (0, 4, 8); (2, 4, 6) ]%nat.

(** The [for (const line of lines)] loop of [calculateWinner]:
    [if (board[a] && board[a] === board[b] && board[a] === board[c])
       return board[a];]  and [return null] after the last line. *)
Fixpoint firstWinner (board : Board) (ls : list (nat * nat * nat))
  : option Player :=
  match ls with
  | [] => None
  | (a, b, c) :: rest =>
      match cell board a with
      | Some p =>
          if bool_decide (cell board b = Some p)
             && bool_decide (cell board c = Some p)
          then Some p
          else firstWinner board rest
      | None => firstWinner board rest
      end
  end.

Definition calculateWinner (board : Board) : option Player :=
  firstWinner board lines.

(** [board.every(cell => cell !== null)] *)
Definition everyNonNull (board : Board) : bool :=
  forallb (fun c => match c with Some _ => true | None => false end) board.

(** The evaluator: winner first, then the full-board test. *)
Definition evaluate (board : Board) : GameOutcome :=
  match calculateWinner board with
  | Some m => WIN m
  | None => if everyNonNull board then DRAW else IN_PROGRESS
  end.

(** ** Move selector *)

(** The mark [minimax] places: [isMaximizing ? "O" : "X"]. *)
Definition markOf (isMaximizing : bool) : Player :=
  if isMaximizing then O else X.

(** The [for (let i = 0; i < board.length; i++)] loop of [minimax].
    [rec] is the recursive call; the board is threaded through it because
    the source writes [board[i]] in place before and after the call.
    [remaining] bounds the number of iterations (the guard
    [i < board.length] is evaluated on every round as in the source);
    [None] means that a bound was exhausted. *)
Fixpoint forLoop (rec : Board -> bool -> option (Board * Z))
    (isMaximizing : bool) (remaining : nat) (i : nat)
    (board : Board) (bestScore : num) (bestMove : Z)
  : option (Board * Z) :=
  match remaining with
  | 0%nat => None
  | S remaining' =>
      if (i <? length board)%nat then
        match board !! i with
        | Some None =>
            let board1 := <[i := Some (markOf isMaximizing)]> board in
            match rec board1 (negb isMaximizing) with
            | None => None
            | Some (board2, score) =>
                let board3 := <[i := None]> board2 in
                if isMaximizing && num_lt bestScore (Num score) then
                  forLoop rec isMaximizing remaining' (S i) board3
                    (Num score) (Z.of_nat i)
                else if negb isMaximizing && num_lt (Num score) bestScore then
                  forLoop rec isMaximizing remaining' (S i) board3
                    (Num score) (Z.of_nat i)
                else
                  forLoop rec isMaximizing remaining' (S i) board3
                    bestScore bestMove
            end
        | _ => forLoop rec isMaximizing remaining' (S i) board
                 bestScore bestMove
        end
      else Some (board, bestMove)
  end.

(** [minimax(board, isMaximizing)], with the recursion depth bounded by
    [fuel].  The result is the board as the call leaves it and the number
    it returns: [-10], [10] or [0] on a decided or full board, and
    [bestMove] (line 105) otherwise. *)
Fixpoint minimax (fuel : nat) (board : Board) (isMaximizing : bool)
  : option (Board * Z) :=
  match fuel with
  | 0%nat => None
  | S fuel' =>
      match calculateWinner board with
      | Some X => Some (board, -10)
      | Some O => Some (board, 10)
      | None =>
          if everyNonNull board then Some (board, 0)
          else
            forLoop (minimax fuel') isMaximizing (S (length board)) 0 board
              (if isMaximizing then NegInf else PosInf) (-1)
      end
  end.

(** The side a call serves: [minimax] places ["O"] when maximizing. *)
Definition isMaximizingFor (sideToMove : Player) : bool :=
  match sideToMove with
  | O => true
  | X => false
  end.

(** The specification's [selectMove(board, sideToMove)]: the top-level
    call of [minimax], as in [aiMove] (line 65).  Every level of the
    recursion fills one cell, so [S (length board)] levels are enough. *)
Definition selectMove (board : Board) (sideToMove : Player)
  : option (Board * Z) :=
  minimax (S (length board)) board (isMaximizingFor sideToMove).

(** An array write [board[i] = v] with a computed index.  Inside the array
    it replaces the cell.  [None] stands for the writes this model does not
    cover: JavaScript only adds a property for a negative index, and grows
    the array, leaving holes, for an index past the end. *)
Definition arraySet (board : Board) (i : Z) (v : option Player)
  : option Board :=
  if (0 <=? i) && (i <? Z.of_nat (length board))
  then Some (<[Z.to_nat i := v]> board)
  else None.

Definition other (m : Player) : Player :=
  match m with
  | X => O
  | O => X
  end.

(** Self-play as the specification's perfect-play property describes it:
    while the board is undecided, the side to move asks [selectMove] and
    its mark is written at the returned index; then the turn passes. *)
Fixpoint selfPlay (turns : nat) (board : Board) (sideToMove : Player)
  : option Board :=
  match evaluate board with
  | IN_PROGRESS =>
      match turns with
      | 0%nat => None
      | S turns' =>
          match selectMove board sideToMove with
          | Some (board1, move) =>
              match arraySet board1 move (Some sideToMove) with
              | Some board2 => selfPlay turns' board2 (other sideToMove)
              | None => None
              end
          | None => None
          end
      end
  | _ => Some board
  end.

(** Following the specification's words (section 4.2), not the source:
    the score of a position under perfect play, [+10] for a win of the
    maximizing side (["O"]), [-10] for a win of the minimizing side
    (["X"]), [0] for a draw, not adjusted by depth; an undecided position
    is worth the best score among its successors for the side to move.
    The search works on a fresh board per successor. *)
Fixpoint gameScore (fuel : nat) (board : Board) (isMaximizing : bool) : Z :=
  match fuel with
  | 0%nat => 0
  | S fuel' =>
      match evaluate board with
      | WIN X => -10
      | WIN O => 10
      | DRAW => 0
      | IN_PROGRESS =>
          let successors :=
            omap (fun i =>
                    match board !! i with
                    | Some None =>
                        Some (gameScore fuel'
                                (<[i := Some (markOf isMaximizing)]> board)
                                (negb isMaximizing))
                    | _ => None
                    end)
                 (seq 0 (length board)) in
          match successors with
          | [] => 0
          | s :: rest =>
              foldl (if isMaximizing then Z.max else Z.min) s rest
          end
      end
  end.

(** The score, in the specification's sense, of moving to cell [i]. *)
Definition moveScore (board : Board) (sideToMove : Player) (i : nat) : Z :=
  gameScore (length board) (<[i := Some sideToMove]> board)
    (negb (isMaximizingFor sideToMove)).

(** The number the recursive call of [minimax] hands back for cell [i]:
    this is what the loop compares with [bestScore] (line 93). *)
Definition recursiveScore (board : Board) (isMaximizing : bool) (i : nat)
  : option Z :=
  snd <$> minimax (length board)
            (<[i := Some (markOf isMaximizing)]> board) (negb isMaximizing).

(** ** Game session *)

(** [gameMode]: ["AI" | "Player"]. *)
Inductive GameMode : Set := AI | TwoPlayers.

(** [scores : { X: number; O: number }] *)
Record Scores : Set := mkScores { scoreX : Z; scoreO : Z }.

(** The component state the handlers read and write.  The display names
    and the theme are presentation only and are left out. *)
Record State : Set := mkState {
  board : Board;
  xIsNext : bool;
  scores : Scores;
  winner : option Player;
  gameStarted : bool;
  gameMode : option GameMode
}.

(** The state setters.  A handler reads the state of the render it was
    created in and queues its updates; they are applied in order, so a
    handler is a function from that state to the state after the batch. *)
Definition setBoard (b : Board) (s : State) : State :=
  mkState b (xIsNext s) (scores s) (winner s) (gameStarted s) (gameMode s).

Definition setXIsNext (x : bool) (s : State) : State :=
  mkState (board s) x (scores s) (winner s) (gameStarted s) (gameMode s).

Definition setWinner (w : option Player) (s : State) : State :=
  mkState (board s) (xIsNext s) (scores s) w (gameStarted s) (gameMode s).

(** [setScores] with an updater function of the previous scores. *)
Definition setScores (f : Scores -> Scores) (s : State) : State :=
  mkState (board s) (xIsNext s) (f (scores s)) (winner s) (gameStarted s)
    (gameMode s).

Definition updateScores (gameWinner : Player) (s : State) : State :=
  setScores (fun prevScores =>
               match gameWinner with
               | X => mkScores (scoreX prevScores + 1) (scoreO prevScores)
               | O => mkScores (scoreX prevScores) (scoreO prevScores + 1)
               end) s.

Definition startNewGame (s : State) : State :=
  setXIsNext true (setWinner None (setBoard emptyBoard s)).

Definition truthy {A} (v : option A) : bool :=
  match v with
  | Some _ => true
  | None => false
  end.

(** [handleClick(index)], run in the render whose state is [s].  The
    result is the state after the handler's updates and, when the handler
    calls [setTimeout], the board handed to [aiMove].  It is [None] only
    for an accepted click with [index] at or past [board.length]: there
    the source grows the array, which [arraySet] does not cover.  The cell
    buttons (line 157) pass indices below [board.length] only. *)
Definition handleClick (s : State) (index : nat)
  : option (State * option Board) :=
  if truthy (cell (board s) index) || truthy (winner s) then Some (s, None)
  else
    match arraySet (board s) (Z.of_nat index)
            (Some (if xIsNext s then X else O)) with
    | None => None
    | Some newBoard =>
        let s1 := setXIsNext (negb (xIsNext s)) (setBoard newBoard s) in
        match calculateWinner newBoard with
        | Some gameWinner =>
            Some (updateScores gameWinner (setWinner (Some gameWinner) s1),
                  None)
        | None =>
            if everyNonNull newBoard then
              Some (startNewGame (setWinner None s1), None)
            else
              match gameMode s with
              | Some AI => Some (s1, Some newBoard)
              | _ => Some (s1, None)
              end
        end
    end.

(** [aiMove(newBoard)], fired by the timer on the state [s] current then. *)
Definition aiMove (s : State) (newBoard : Board) : option State :=
  match minimax (S (length newBoard)) newBoard true with
  | None => None
  | Some (board1, bestMove) =>
      match arraySet board1 bestMove (Some O) with
      | None => None
      | Some board2 =>
          let s1 := setXIsNext true (setBoard board2 s) in
          match calculateWinner board2 with
          | Some gameWinner =>
              Some (updateScores gameWinner (setWinner (Some gameWinner) s1))
          | None =>
              if everyNonNull board2 then Some (startNewGame s1) else Some s1
          end
      end
  end.

(** The number of [null] cells. *)
Definition emptyCells (board : Board) : nat :=
  length (filter (fun c => c = None) board).

(** Relabeling: every ["X"] becomes ["O"] and back. *)
Definition swapBoard (board : Board) : Board :=
  fmap (M:=list) (fmap (M:=option) other) board.

Definition swapOutcome (o : GameOutcome) : GameOutcome :=
  match o with
  | WIN m => WIN (other m)
  | IN_PROGRESS => IN_PROGRESS
  | DRAW => DRAW
  end.

(** The three cells of a line all hold the mark [m]. *)
Definition lineHeldBy (board : Board) (l : nat * nat * nat) (m : Player)
  : Prop :=
  let '(a, b, c) := l in
  board !! a = Some (Some m) /\ board !! b = Some (Some m)
  /\ board !! c = Some (Some m).

(** No mark holds the line. *)
Definition lineOpen (board : Board) (l : nat * nat * nat) : Prop :=
  forall m, ~ lineHeldBy board l m.

(** [a] is strictly better than [b] for the side the loop serves. *)
Definition beats (isMaximizing : bool) (a b : Z) : Prop :=
  if isMaximizing then b < a else a < b.

(** The two tests of the loop, [isMaximizing && score > bestScore] and
    [!isMaximizing && score < bestScore], as one. *)
Definition improves (isMaximizing : bool) (score : Z) (bestScore : num)
  : bool :=
  if isMaximizing then num_lt bestScore (Num score)
  else num_lt (Num score) bestScore.

(** What the loop of [minimax] has established before round [i], where
    [sc j] is the number the recursive call returns for cell [j]: either no
    cell below [i] was empty and the two variables hold their initial
    values, or [bestMove] is an empty cell [k] below [i] whose score no
    empty cell below [i] beats and which beats every empty cell below
    itself. *)
Definition LoopInv (isMaximizing : bool) (board : Board) (sc : nat -> Z)
    (i : nat) (bestScore : num) (bestMove : Z) : Prop :=
  (bestScore = (if isMaximizing then NegInf else PosInf)
   /\ bestMove = -1
   /\ forall j, (j < i)%nat -> board !! j <> Some None)
  \/ exists k : nat,
      bestMove = Z.of_nat k /\ bestScore = Num (sc k)
      /\ (k < i)%nat /\ board !! k = Some None
      /\ (forall j, (j < i)%nat -> board !! j = Some None ->
                    ~ beats isMaximizing (sc j) (sc k))
      /\ (forall j, (j < k)%nat -> board !! j = Some None ->
                    beats isMaximizing (sc k) (sc j)).

(** The number [minimax] returns on the successor for cell [j], [0] where
    it returns none. *)
Definition scoreAt (fuel : nat) (board : Board) (isMaximizing : bool)
    (j : nat) : Z :=
  match minimax fuel (<[j := Some (markOf isMaximizing)]> board)
          (negb isMaximizing) with
  | Some (_, r) => r
  | None => 0
  end.

(** ** The rest of the session *)

Definition setGameStarted (g : bool) (s : State) : State :=
  mkState (board s) (xIsNext s) (scores s) (winner s) g (gameMode s).

Definition setGameMode (m : option GameMode) (s : State) : State :=
  mkState (board s) (xIsNext s) (scores s) (winner s) (gameStarted s) m.

(** [resetGame], the handler of the "Select Mode" button. *)
Definition resetGame (s : State) : State :=
  setGameMode None
    (setGameStarted false
       (setScores (fun _ => mkScores 0 0)
          (setWinner None (setBoard emptyBoard s)))).

(** [startGame(mode)], the handler of the two mode buttons.  Its
    [setPlayers] call only changes the display names, which [State] leaves
    out. *)
Definition startGame (mode : GameMode) (s : State) : State :=
  setGameStarted true (setGameMode (Some mode) s).

(** The values the [useState] calls start from (lines 10-20). *)
Definition initialState : State :=
  mkState emptyBoard true (mkScores 0 0) None false None.

(** [prevScores[gameWinner]] *)
Definition scoreOf (m : Player) (sc : Scores) : Z :=
  match m with
  | X => scoreX sc
  | O => scoreO sc
  end.

(** The mark a click places: [xIsNext ? "X" : "O"] (line 26). *)
Definition mover (s : State) : Player :=
  if xIsNext s then X else O.

(** The component between two events: its state and the boards of the
    timers [handleClick] has set with [setTimeout] and that have not fired
    yet. *)
Record Config : Type := mkConfig {
  current : State;
  timers : list Board
}.

(** The events that run code of the component: a click on the cell button
    [index] (the buttons come from [board.map], line 157), the expiry of the
    [n]-th pending timer, and clicks on "Start New Game", "Select Mode" and
    on a mode button. *)
Inductive Event : Set :=
| ClickCell (index : nat)
| TimerFires (n : nat)
| ClickNewGame
| ClickSelectMode
| ClickMode (mode : GameMode).

(** Whether the event can occur: there is such a button, or such a timer.
    Which buttons are shown or disabled is not taken into account, so this
    allows more than the rendered page does. *)
Definition available (c : Config) (e : Event) : bool :=
  match e with
  | ClickCell index => (index <? length (board (current c)))%nat
  | TimerFires n => (n <? length (timers c))%nat
  | _ => true
  end.

(** The handler an event runs, applied to the current state. *)
Definition fire (c : Config) (e : Event) : option Config :=
  match e with
  | ClickCell index =>
      if (index <? length (board (current c)))%nat then
        match handleClick (current c) index with
        | Some (s', Some newBoard) =>
            Some (mkConfig s' (timers c ++ [newBoard]))
        | Some (s', None) => Some (mkConfig s' (timers c))
        | None => None
        end
      else None
  | TimerFires n =>
      match timers c !! n with
      | Some newBoard =>
          match aiMove (current c) newBoard with
          | Some s' => Some (mkConfig s' (delete n (timers c)))
          | None => None
          end
      | None => None
      end
  | ClickNewGame => Some (mkConfig (startNewGame (current c)) (timers c))
  | ClickSelectMode => Some (mkConfig (resetGame (current c)) (timers c))
  | ClickMode mode => Some (mkConfig (startGame mode (current c)) (timers c))
  end.

Fixpoint run (c : Config) (es : list Event) : option Config :=
  match es with
  | [] => Some c
  | e :: rest =>
      match fire c e with
      | Some c' => run c' rest
      | None => None
      end
  end.

(** What holds of every configuration the component reaches: the board has
    9 cells, and every pending timer holds a board of 9 cells that is
    undecided. *)
Definition WellFormed (c : Config) : Prop :=
  length (board (current c)) = 9%nat
  /\ Forall (fun newBoard : Board =>
               length newBoard = 9%nat /\ evaluate newBoard = IN_PROGRESS)
       (timers c).

(** How one handler may change the scores: not at all, or by one point for
    the player it records as winner, whose line is on the board it leaves. *)
Definition TallyStep (s s' : State) : Prop :=
  scores s' = scores s
  \/ exists w,
      winner s' = Some w
      /\ calculateWinner (board s') = Some w
      /\ scoreOf w (scores s') = scoreOf w (scores s) + 1
      /\ scoreOf (other w) (scores s') = scoreOf (other w) (scores s).

(** ** The evaluator *)

Section Evaluator.

Variable board : Board.

Lemma cell_Some i p : cell board i = Some p <-> board !! i = Some (Some p).
Proof.
  unfold cell. destruct (board !! i) as [c|]; split; intros H;
    try congruence; discriminate.
Qed.

(** The test of one round of the loop in [calculateWinner]. *)
Lemma line_test a b c p :
  cell board a = Some p ->
  bool_decide (cell board b = Some p) && bool_decide (cell board c = Some p)
    = true
  <-> lineHeldBy board (a, b, c) p.
Proof.
  intros Ha. rewrite andb_true_iff, !bool_decide_eq_true.
  unfold lineHeldBy. rewrite <- !cell_Some. tauto.
Qed.

Lemma lineHeldBy_first a b c m :
  lineHeldBy board (a, b, c) m -> cell board a = Some m.
Proof. intros [Ha _]. by apply cell_Some. Qed.

Lemma firstWinner_None ls :
  firstWinner board ls = None <-> forall l, l ∈ ls -> lineOpen board l.
Proof.
  induction ls as [|[[a b] c] rest IH]; simpl.
  - split; [intros _ l Hl; inversion Hl | done].
  - destruct (cell board a) as [p|] eqn:Ha.
    + destruct (bool_decide _ && bool_decide _) eqn:Ht.
      * split; [discriminate|]. intros H. exfalso.
        refine (H (a, b, c) _ p _); [left | by apply line_test].
      * rewrite IH. split.
        -- intros H l Hl m Hm. apply elem_of_cons in Hl as [->|Hl].
           ++ pose proof (lineHeldBy_first _ _ _ _ Hm) as Hp.
              rewrite Ha in Hp. injection Hp as <-.
              apply (line_test _ _ _ _ Ha) in Hm. congruence.
           ++ by apply (H l Hl m).
        -- intros H l Hl. apply H. by right.
    + rewrite IH. split.
      * intros H l Hl m Hm. apply elem_of_cons in Hl as [->|Hl].
        -- apply lineHeldBy_first in Hm. congruence.
        -- by apply (H l Hl m).
      * intros H l Hl. apply H. by right.
Qed.

Lemma firstWinner_Some ls m :
  firstWinner board ls = Some m <->
  exists before l after,
    ls = before ++ l :: after /\ lineHeldBy board l m
    /\ forall l', l' ∈ before -> lineOpen board l'.
Proof.
  induction ls as [|[[a b] c] rest IH]; simpl.
  - split; [discriminate|]. intros (before & l & after & E & _).
    by destruct before.
  - assert (Hskip : lineOpen board (a, b, c) ->
              (firstWinner board rest = Some m <->
               exists before l after,
                 (a, b, c) :: rest = before ++ l :: after
                 /\ lineHeldBy board l m
                 /\ forall l', l' ∈ before -> lineOpen board l')).
    { intros Hopen. rewrite IH. split.
      - intros (before & l & after & -> & Hl & Hb).
        exists ((a, b, c) :: before), l, after. repeat split; [done|].
        intros l' Hl'. apply elem_of_cons in Hl' as [->|Hl']; auto.
      - intros (before & l & after & E & Hl & Hb).
        destruct before as [|l0 before]; simpl in E.
        + injection E as <- _. by destruct (Hopen m Hl).
        + injection E as <- ->. exists before, l, after.
          repeat split; [done|]. intros l' Hl'. apply Hb. by right. }
    destruct (cell board a) as [p|] eqn:Ha.
    + destruct (bool_decide _ && bool_decide _) eqn:Ht.
      * apply (line_test _ _ _ _ Ha) in Ht. split.
        -- intros [= <-]. exists [], (a, b, c), rest.
           repeat split; try done; try apply Ht.
           intros l' Hl'. inversion Hl'.
        -- intros (before & l & after & E & Hl & Hb).
           destruct before as [|l0 before]; simpl in E.
           ++ injection E as <- _. apply lineHeldBy_first in Hl.
              congruence.
           ++ injection E as <- _. exfalso.
              refine (Hb (a, b, c) _ p Ht). left.
      * apply Hskip. intros m' Hm'.
        pose proof (lineHeldBy_first _ _ _ _ Hm') as Hp.
        rewrite Ha in Hp. injection Hp as <-.
        apply (line_test _ _ _ _ Ha) in Hm'. congruence.
    + apply Hskip. intros m' Hm'. apply lineHeldBy_first in Hm'.
      congruence.
Qed.

Lemma everyNonNull_true :
  everyNonNull board = true <->
  forall i c, board !! i = Some c -> c <> None.
Proof.
  unfold everyNonNull. rewrite forallb_forall. split.
  - intros H i c Hi ->. apply list_elem_of_lookup_2, list_elem_of_In in Hi.
    by apply H in Hi.
  - intros H c Hc. apply list_elem_of_In, list_elem_of_lookup_1 in Hc as [i Hi].
    destruct c; [done|]. by destruct (H i None Hi).
Qed.

Lemma everyNonNull_false :
  everyNonNull board = false <-> exists i, board !! i = Some None.
Proof.
  split.
  - intros H. destruct (decide (None ∈ board)) as [Hin|Hnin].
    + by apply list_elem_of_lookup_1 in Hin.
    + assert (everyNonNull board = true); [|congruence].
      apply everyNonNull_true. intros i c Hi ->. apply Hnin.
      by apply list_elem_of_lookup_2 in Hi.
  - intros [i Hi]. destruct (everyNonNull board) eqn:E; [|done].
    rewrite everyNonNull_true in E. by destruct (E i None Hi).
Qed.

Lemma evaluate_IN_PROGRESS :
  evaluate board = IN_PROGRESS <->
  calculateWinner board = None /\ everyNonNull board = false.
Proof.
  unfold evaluate. destruct (calculateWinner board);
    [|destruct (everyNonNull board)]; split; try done; by intros [? ?].
Qed.

Lemma evaluate_DRAW :
  evaluate board = DRAW <->
  calculateWinner board = None /\ everyNonNull board = true.
Proof.
  unfold evaluate. destruct (calculateWinner board);
    [|destruct (everyNonNull board)]; split; try done; by intros [? ?].
Qed.

Lemma evaluate_WIN m :
  evaluate board = WIN m <-> calculateWinner board = Some m.
Proof.
  unfold evaluate. destruct (calculateWinner board);
    [|destruct (everyNonNull board)]; split; try done; congruence.
Qed.

End Evaluator.

(** ** The loop of [minimax] *)

Lemma minimax_S fuel board isMaximizing :
  minimax (S fuel) board isMaximizing =
  match calculateWinner board with
  | Some X => Some (board, -10)
  | Some O => Some (board, 10)
  | None =>
      if everyNonNull board then Some (board, 0)
      else
        forLoop (minimax fuel) isMaximizing (S (length board)) 0 board
          (if isMaximizing then NegInf else PosInf) (-1)
  end.
Proof. reflexivity. Qed.

(** Writing a mark into an empty cell and [null] back restores the board. *)
Lemma place_undo (board : Board) i (m : Player) :
  board !! i = Some None ->
  <[i := None]> (<[i := Some m]> board) = board.
Proof.
  intros Hi. rewrite list_insert_insert_eq. by apply list_insert_id.
Qed.

Lemma emptyCells_le (board : Board) : (emptyCells board <= length board)%nat.
Proof. unfold emptyCells. apply length_filter. Qed.

Lemma emptyCells_place (board : Board) i (m : Player) :
  board !! i = Some None ->
  S (emptyCells (<[i := Some m]> board)) = emptyCells board.
Proof.
  unfold emptyCells. revert i.
  induction board as [|c rest IH]; intros [|i] Hi; simpl in *; try done.
  - injection Hi as ->. rewrite filter_cons_False by done.
    by rewrite filter_cons_True by done.
  - specialize (IH i Hi). destruct (decide (c = None)) as [E|E].
    + rewrite !filter_cons_True by done. simpl. by rewrite IH.
    + rewrite !filter_cons_False by done. done.
Qed.

Lemma improves_test isMaximizing score bestScore {A} (yes no : A) :
  (if isMaximizing && num_lt bestScore (Num score) then yes
   else if negb isMaximizing && num_lt (Num score) bestScore then yes
   else no)
  = if improves isMaximizing score bestScore then yes else no.
Proof.
  unfold improves. by destruct isMaximizing.
Qed.

Lemma improves_initial isMaximizing score :
  improves isMaximizing score (if isMaximizing then NegInf else PosInf)
  = true.
Proof. by destruct isMaximizing. Qed.

Lemma improves_Num isMaximizing score best :
  improves isMaximizing score (Num best) = true
  <-> beats isMaximizing score best.
Proof.
  unfold improves, beats. destruct isMaximizing; simpl; apply Z.ltb_lt.
Qed.

Section Loop.

Variable rec : Board -> bool -> option (Board * Z).
Variable isMaximizing : bool.
Variable board : Board.
Variable sc : nat -> Z.

(** The recursive call returns, and leaves the successor as it got it. *)
Hypothesis rec_frame :
  forall j, board !! j = Some None ->
    rec (<[j := Some (markOf isMaximizing)]> board) (negb isMaximizing)
    = Some (<[j := Some (markOf isMaximizing)]> board, sc j).

Lemma LoopInv_skip i bestScore bestMove :
  board !! i <> Some None ->
  LoopInv isMaximizing board sc i bestScore bestMove ->
  LoopInv isMaximizing board sc (S i) bestScore bestMove.
Proof.
  intros Hi [(Hs & Hm & Hnone)|(k & Hm & Hs & Hk & Hek & Hbest & Hlow)].
  - left. repeat split; try done. intros j Hj.
    destruct (decide (j = i)) as [->|]; [done|]. apply Hnone. lia.
  - right. exists k. repeat split; try done; [lia|].
    intros j Hj Hej. destruct (decide (j = i)) as [->|]; [done|].
    apply Hbest; [lia | done].
Qed.

Lemma LoopInv_keep i bestScore bestMove :
  board !! i = Some None ->
  improves isMaximizing (sc i) bestScore = false ->
  LoopInv isMaximizing board sc i bestScore bestMove ->
  LoopInv isMaximizing board sc (S i) bestScore bestMove.
Proof.
  intros Hi Himp [(Hs & Hm & Hnone)|(k & Hm & Hs & Hk & Hek & Hbest & Hlow)].
  - subst bestScore. by rewrite improves_initial in Himp.
  - right. exists k. repeat split; try done; [lia|].
    intros j Hj Hej. destruct (decide (j = i)) as [->|].
    + subst bestScore. intros Hb. apply improves_Num in Hb. congruence.
    + apply Hbest; [lia | done].
Qed.

Lemma LoopInv_take i bestScore bestMove :
  board !! i = Some None ->
  improves isMaximizing (sc i) bestScore = true ->
  LoopInv isMaximizing board sc i bestScore bestMove ->
  LoopInv isMaximizing board sc (S i) (Num (sc i)) (Z.of_nat i).
Proof.
  intros Hi Himp Hinv. right. exists i.
  repeat split; try done; [lia| |].
  - intros j Hj Hej.
    destruct Hinv as [(Hs & Hm & Hnone)|(k & Hm & Hs & Hk & Hek & Hbest & Hlow)].
    + destruct (decide (j = i)) as [->|].
      * unfold beats. destruct isMaximizing; lia.
      * destruct (Hnone j); [lia | done].
    + subst bestScore. apply improves_Num in Himp.
      destruct (decide (j = i)) as [->|].
      * unfold beats. destruct isMaximizing; lia.
      * assert (Hjk : ~ beats isMaximizing (sc j) (sc k))
          by (apply Hbest; [lia | done]).
        revert Himp Hjk. unfold beats. destruct isMaximizing; lia.
  - intros j Hj Hej.
    destruct Hinv as [(Hs & Hm & Hnone)|(k & Hm & Hs & Hk & Hek & Hbest & Hlow)].
    + by destruct (Hnone j).
    + subst bestScore. apply improves_Num in Himp.
      assert (Hjk : ~ beats isMaximizing (sc j) (sc k))
        by (apply Hbest; [lia | done]).
      revert Himp Hjk. unfold beats. destruct isMaximizing; lia.
Qed.

(** The loop returns, hands the board back as it was, and its answer
    satisfies the invariant for the whole board. *)
Lemma forLoop_inv remaining : forall i bestScore bestMove,
  (length board < remaining + i)%nat ->
  (i <= length board)%nat ->
  LoopInv isMaximizing board sc i bestScore bestMove ->
  exists bestScore' bestMove',
    forLoop rec isMaximizing remaining i board bestScore bestMove
    = Some (board, bestMove')
    /\ LoopInv isMaximizing board sc (length board) bestScore' bestMove'.
Proof.
  induction remaining as [|remaining IH]; intros i bestScore bestMove Hrem Hi Hinv.
  - lia.
  - simpl. destruct (i <? length board)%nat eqn:Hlt.
    + apply Nat.ltb_lt in Hlt.
      destruct (board !! i) as [[p|]|] eqn:Hcell.
      * apply IH; [lia | lia |]. apply LoopInv_skip; [congruence | done].
      * rewrite (rec_frame i Hcell), improves_test.
        rewrite (place_undo _ _ _ Hcell).
        destruct (improves isMaximizing (sc i) bestScore) eqn:Himp.
        -- apply IH; [lia | lia |]. by eapply LoopInv_take.
        -- apply IH; [lia | lia |]. by apply LoopInv_keep.
      * apply IH; [lia | lia |]. apply LoopInv_skip; [congruence | done].
    + apply Nat.ltb_ge in Hlt. assert (i = length board) as -> by lia.
      by exists bestScore, bestMove.
Qed.

End Loop.

(** More fuel does not change a result. *)
Lemma forLoop_mono (rec rec' : Board -> bool -> option (Board * Z)) isMaximizing :
  (forall b m r, rec b m = Some r -> rec' b m = Some r) ->
  forall remaining i board bestScore bestMove r,
    forLoop rec isMaximizing remaining i board bestScore bestMove = Some r ->
    forLoop rec' isMaximizing remaining i board bestScore bestMove = Some r.
Proof.
  intros Hrec. induction remaining as [|remaining IH];
    intros i board bestScore bestMove r; simpl; [done|].
  destruct (i <? length board)%nat; [|done].
  destruct (board !! i) as [[p|]|]; try apply IH.
  destruct (rec _ _) as [[board2 score]|] eqn:E; [|done].
  rewrite (Hrec _ _ _ E), !improves_test.
  destruct (improves _ _ _); apply IH.
Qed.

Lemma minimax_mono fuel : forall fuel' board isMaximizing r,
  (fuel <= fuel')%nat ->
  minimax fuel board isMaximizing = Some r ->
  minimax fuel' board isMaximizing = Some r.
Proof.
  induction fuel as [|fuel IH]; intros fuel' board isMaximizing r Hle; [done|].
  destruct fuel' as [|fuel']; [lia|]. rewrite !minimax_S.
  destruct (calculateWinner board) as [[|]|]; try done.
  destruct (everyNonNull board); [done|].
  apply forLoop_mono. intros b m r'. apply IH. lia.
Qed.

(** With one level of recursion per empty cell and one more, [minimax]
    returns, and the board is as it was before the call. *)
Lemma minimax_frame fuel : forall board isMaximizing,
  (emptyCells board < fuel)%nat ->
  exists r, minimax fuel board isMaximizing = Some (board, r).
Proof.
  induction fuel as [|fuel IH]; intros board isMaximizing Hfuel; [lia|].
  rewrite minimax_S.
  destruct (calculateWinner board) as [[|]|]; eauto.
  destruct (everyNonNull board); eauto.
  destruct (forLoop_inv (minimax fuel) isMaximizing board
              (scoreAt fuel board isMaximizing) ) with
    (remaining := S (length board)) (i := 0%nat)
    (bestScore := if isMaximizing then NegInf else PosInf) (bestMove := -1)
    as (bs & bm & Hrun & _).
  - intros j Hj. unfold scoreAt.
    destruct (IH (<[j := Some (markOf isMaximizing)]> board)
                (negb isMaximizing)) as [r Hr].
    { pose proof (emptyCells_place board j (markOf isMaximizing) Hj). lia. }
    by rewrite Hr.
  - lia.
  - lia.
  - left. repeat split; try done. intros j Hj. lia.
  - eauto.
Qed.

Lemma minimax_fuel_irrelevant fuel fuel' board isMaximizing :
  (emptyCells board < fuel)%nat -> (emptyCells board < fuel')%nat ->
  minimax fuel board isMaximizing = minimax fuel' board isMaximizing.
Proof.
  intros H H'.
  destruct (minimax_frame (S (emptyCells board)) board isMaximizing) as [r Hr];
    [lia|].
  assert (Hle : (S (emptyCells board) <= fuel)%nat) by lia.
  assert (Hle' : (S (emptyCells board) <= fuel')%nat) by lia.
  rewrite (minimax_mono _ _ _ _ _ Hle Hr).
  by rewrite (minimax_mono _ _ _ _ _ Hle' Hr).
Qed.

(** On an undecided board the call returns an empty cell [k]; no empty
    cell has a recursive score that beats the one of [k], and the score
    of [k] beats the one of every empty cell before it. *)
Lemma minimax_choice fuel board isMaximizing :
  (emptyCells board < S fuel)%nat ->
  calculateWinner board = None ->
  everyNonNull board = false ->
  exists k : nat,
    minimax (S fuel) board isMaximizing = Some (board, Z.of_nat k)
    /\ board !! k = Some None
    /\ (forall j, board !! j = Some None ->
          ~ beats isMaximizing (scoreAt fuel board isMaximizing j)
                               (scoreAt fuel board isMaximizing k))
    /\ (forall j, (j < k)%nat -> board !! j = Some None ->
          beats isMaximizing (scoreAt fuel board isMaximizing k)
                             (scoreAt fuel board isMaximizing j)).
Proof.
  intros Hfuel Hwin Hfull. rewrite minimax_S, Hwin, Hfull.
  destruct (forLoop_inv (minimax fuel) isMaximizing board
              (scoreAt fuel board isMaximizing)) with
    (remaining := S (length board)) (i := 0%nat)
    (bestScore := if isMaximizing then NegInf else PosInf) (bestMove := -1)
    as (bs & bm & Hrun & Hinv).
  - intros j Hj. unfold scoreAt.
    destruct (minimax_frame fuel (<[j := Some (markOf isMaximizing)]> board)
                (negb isMaximizing)) as [r Hr].
    { pose proof (emptyCells_place board j (markOf isMaximizing) Hj). lia. }
    by rewrite Hr.
  - lia.
  - lia.
  - left. repeat split; try done. intros j Hj. lia.
  - rewrite Hrun.
    destruct Hinv as [(_ & _ & Hnone)|(k & -> & _ & Hk & Hek & Hbest & Hlow)].
    + apply everyNonNull_false in Hfull as [i Hi].
      destruct (Hnone i); [|done]. by apply lookup_lt_Some in Hi.
    + exists k. repeat split; try done.
      intros j Hj. apply Hbest; [|done]. by apply lookup_lt_Some in Hj.
Qed.

(** The score the loop compares for an empty cell does not depend on the
    fuel left, as long as it is enough. *)
Lemma recursiveScore_scoreAt fuel (board : Board) isMaximizing j :
  (emptyCells board < S fuel)%nat ->
  board !! j = Some None ->
  recursiveScore board isMaximizing j
  = Some (scoreAt fuel board isMaximizing j).
Proof.
  intros Hfuel Hj. unfold recursiveScore, scoreAt.
  pose proof (emptyCells_place board j (markOf isMaximizing) Hj) as Hplace.
  pose proof (emptyCells_le board) as Hle.
  rewrite (minimax_fuel_irrelevant (length board) fuel) by lia.
  destruct (minimax_frame fuel (<[j := Some (markOf isMaximizing)]> board)
              (negb isMaximizing)) as [r Hr]; [lia|].
  by rewrite Hr.
Qed.

Lemma selectMove_choice (board : Board) sideToMove :
  evaluate board = IN_PROGRESS ->
  exists k : nat,
    selectMove board sideToMove = Some (board, Z.of_nat k)
    /\ board !! k = Some None
    /\ (forall j, board !! j = Some None ->
          exists s best,
            recursiveScore board (isMaximizingFor sideToMove) j = Some s
            /\ recursiveScore board (isMaximizingFor sideToMove) k = Some best
            /\ ~ beats (isMaximizingFor sideToMove) s best
            /\ ((j < k)%nat -> beats (isMaximizingFor sideToMove) best s)).
Proof.
  intros [Hwin Hfull]%evaluate_IN_PROGRESS.
  pose proof (emptyCells_le board) as Hle.
  destruct (minimax_choice (length board) board (isMaximizingFor sideToMove))
    as (k & Hrun & Hk & Hbest & Hlow); [lia | done | done |].
  exists k. repeat split; try done. intros j Hj.
  eexists _, _.
  rewrite !(recursiveScore_scoreAt (length board)) by (done || lia).
  repeat split; try done; [by apply Hbest | intros Hjk; by apply Hlow].
Qed.

(** ** Relabeling *)

Lemma cell_swap (board : Board) i :
  cell (swapBoard board) i = other <$> cell board i.
Proof.
  unfold cell, swapBoard. rewrite list_lookup_fmap.
  by destruct (board !! i).
Qed.

Lemma firstWinner_swap (board : Board) ls :
  firstWinner (swapBoard board) ls = other <$> firstWinner board ls.
Proof.
  induction ls as [|[[a b] c] rest IH]; simpl; [done|].
  rewrite !cell_swap, IH.
  destruct (cell board a) as [[|]|], (cell board b) as [[|]|],
    (cell board c) as [[|]|]; simpl; done.
Qed.

Lemma everyNonNull_swap (board : Board) :
  everyNonNull (swapBoard board) = everyNonNull board.
Proof.
  unfold everyNonNull, swapBoard.
  induction board as [|[m|] rest IH]; simpl; done.
Qed.


(** ** The claims *)

(** C1 (fails on the code; the code's search is not a minimax of scores).
    After a first click on cell 6 the board is the input [aiMove] passes to
    [minimax].  The call returns cell 0.  In the specification's sense that
    move is worth -10 (the opponent then wins by force), while cell 4 is
    worth 0, so the returned move is not optimal.  The numbers the loop
    compared for these two cells are 7 and 1: they are the cell indices the
    recursive calls returned as their [bestMove], not scores. *)
Theorem selectMove_not_optimal_after_corner :
  let b := [None; None; None; None; None; None; Some X; None; None] in
  evaluate b = IN_PROGRESS
  /\ selectMove b O = Some (b, 0)
  /\ moveScore b O 0 = -10
  /\ moveScore b O 4 = 0
  /\ recursiveScore b true 0 = Some 7
  /\ recursiveScore b true 4 = Some 1.
Proof. vm_compute. repeat split; reflexivity. Qed.

(** C2 (fails on the code, by the defect of C1).  When [selectMove] plays
    both sides from the empty board, the game ends with three in a row for
    the side that moved first: for ["X"], which the game makes the first
    mover, on the bottom row, and likewise if ["O"] were to start. *)
Theorem selfPlay_first_mover_wins :
  selfPlay 9 emptyBoard X
  = Some [Some O; Some O; None; None; None; None; Some X; Some X; Some X]
  /\ evaluate [Some O; Some O; None; None; None; None;
               Some X; Some X; Some X] = WIN X
  /\ selfPlay 9 emptyBoard O
     = Some [Some O; Some O; Some O; Some X; None; None; None; Some X; None]
  /\ evaluate [Some O; Some O; Some O; Some X; None; None;
               None; Some X; None] = WIN O.
Proof. vm_compute. repeat split; reflexivity. Qed.

(** C3.  On the board with ["X"] in cells 0 and 1 and ["O"] in cells 3 and
    4, with ["X"] to move, [selectMove] returns cell 2 (and the board as it
    was). *)
Theorem selectMove_completes_top_row :
  selectMove [Some X; Some X; None; Some O; Some O; None; None; None; None] X
  = Some ([Some X; Some X; None; Some O; Some O; None; None; None; None], 2).
Proof. vm_compute. reflexivity. Qed.

(** C4.  For a board of 9 cells: the table of lines is the fixed one;
    [evaluate] returns [WIN m] exactly when some line is held by [m] and
    no line before it in the table is held by any mark (the first matching
    line decides); it returns [DRAW] exactly when no line is held and every
    cell is occupied; and [IN_PROGRESS] exactly when no line is held and
    some cell is empty. *)
Theorem evaluate_first_line_then_full (board : Board) :
  length board = 9%nat ->
  lines = [ (0, 1, 2); (3, 4, 5); (6, 7, 8); (0, 3, 6); (1, 4, 7);
            (2, 5, 8); (0, 4, 8); (2, 4, 6) ]%nat
  /\ (forall m,
        evaluate board = WIN m <->
        exists before l after,
          lines = before ++ l :: after /\ lineHeldBy board l m
          /\ forall l', l' ∈ before -> lineOpen board l')
  /\ (evaluate board = DRAW <->
        (forall l, l ∈ lines -> lineOpen board l)
        /\ forall i, (i < 9)%nat -> exists m, board !! i = Some (Some m))
  /\ (evaluate board = IN_PROGRESS <->
        (forall l, l ∈ lines -> lineOpen board l)
        /\ exists i, (i < 9)%nat /\ board !! i = Some None).
Proof.
  intros Hlen. split; [reflexivity|]. split; [|split].
  - intros m. rewrite evaluate_WIN. apply firstWinner_Some.
  - rewrite evaluate_DRAW. unfold calculateWinner.
    rewrite firstWinner_None, everyNonNull_true. split.
    + intros [Hopen Hfull]. split; [done|]. intros i Hi.
      destruct (lookup_lt_is_Some_2 board i) as [c Hc]; [lia|].
      destruct c as [m|]; [eauto | by destruct (Hfull i None Hc)].
    + intros [Hopen Hfull]. split; [done|]. intros i c Hc ->.
      destruct (Hfull i) as [m Hm]; [|congruence].
      apply lookup_lt_Some in Hc. lia.
  - rewrite evaluate_IN_PROGRESS. unfold calculateWinner.
    rewrite firstWinner_None, everyNonNull_false. split.
    + intros [Hopen [i Hi]]. split; [done|]. exists i. split; [|done].
      apply lookup_lt_Some in Hi. lia.
    + intros [Hopen (i & _ & Hi)]. eauto.
Qed.

Lemma evaluate_first_line_then_full_witness :
  length [Some O; Some O; Some O; Some X; Some X; Some X;
          None; None; None] = 9%nat
  /\ evaluate [Some O; Some O; Some O; Some X; Some X; Some X;
               None; None; None] = WIN O.
Proof.
  split; [reflexivity|].
  destruct (evaluate_first_line_then_full
              [Some O; Some O; Some O; Some X; Some X; Some X;
               None; None; None] eq_refl) as (_ & Hwin & _).
  apply Hwin. exists [], (0, 1, 2)%nat, (tail lines).
  split; [reflexivity|]. split; [by repeat split|].
  intros l' Hl'. inversion Hl'.
Defined.

(** C5.  On a board of 9 cells with an empty cell that [evaluate] finds
    [IN_PROGRESS], [selectMove] returns a number that is a cell index from
    0 to 8, and that cell is empty in the input board. *)
Theorem selectMove_returns_empty_cell (board : Board) (sideToMove : Player) :
  length board = 9%nat ->
  (exists i, board !! i = Some None) ->
  evaluate board = IN_PROGRESS ->
  exists (board' : Board) (k : nat),
    selectMove board sideToMove = Some (board', Z.of_nat k)
    /\ 0 <= Z.of_nat k <= 8
    /\ board !! k = Some None.
Proof.
  intros Hlen _ Hprog.
  destruct (selectMove_choice board sideToMove Hprog) as (k & Hrun & Hk & _).
  exists board, k. repeat split; try done; [lia|].
  apply lookup_lt_Some in Hk. lia.
Qed.

Lemma selectMove_returns_empty_cell_witness :
  exists (board' : Board) (k : nat),
    selectMove [Some X; Some O; Some X; Some O; Some X; Some X;
                Some O; None; None] O = Some (board', Z.of_nat k)
    /\ 0 <= Z.of_nat k <= 8
    /\ [Some X; Some O; Some X; Some O; Some X; Some X;
        Some O; None; None] !! k = Some None.
Proof.
  apply (selectMove_returns_empty_cell
           [Some X; Some O; Some X; Some O; Some X; Some X;
            Some O; None; None] O).
  - reflexivity.
  - exists 7%nat. reflexivity.
  - reflexivity.
Defined.

(** C6.  [selectMove] returns on every board, decided or not, and the
    board it leaves behind is the board it was given: every write of the
    search has been undone. *)
Theorem selectMove_restores_board (board : Board) (sideToMove : Player) :
  exists move, selectMove board sideToMove = Some (board, move).
Proof.
  apply minimax_frame. pose proof (emptyCells_le board). lia.
Qed.

(** C7 (fails on the code, by the defect of C1).  After a first click on
    the centre the four corners 0, 2, 6 and 8 share the best score, 0, and
    every other cell is worth -10; the claim's answer is cell 0 and
    [selectMove] returns cell 1.  On the second board, with ["O"] to move,
    cells 3 and 7 share the best score, 10; the claim's answer is cell 3
    and [selectMove] returns cell 7.  The scores are those of the
    specification ([moveScore]); the loop compares the numbers the
    recursive calls return instead. *)
Theorem selectMove_not_lowest_of_best_scores :
  let b := [None; None; None; None; Some X; None; None; None; None] in
  let b' := [Some X; Some O; Some X; None; Some O; None;
             Some X; None; None] in
  evaluate b = IN_PROGRESS
  /\ map (moveScore b O) [0; 1; 2; 3; 5; 6; 7; 8]%nat
     = [0; -10; 0; -10; -10; 0; -10; 0]
  /\ selectMove b O = Some (b, 1)
  /\ evaluate b' = IN_PROGRESS
  /\ map (moveScore b' O) [3; 5; 7; 8]%nat = [10; -10; 10; -10]
  /\ selectMove b' O = Some (b', 7).
Proof. vm_compute. repeat split; reflexivity. Qed.

(** X15.  On a board with an empty cell that [evaluate] finds
    [IN_PROGRESS], [selectMove] returns an empty cell [k] such that, with
    the compared number of a cell being the number the recursive call of
    [minimax] returns for it ([recursiveScore]: -10, 0 or 10 on a decided
    or full successor, the cell the successor chose otherwise, so not a
    score of the game): every empty cell has a compared number, none
    better for the side to move than the one of [k] (not greater when
    maximizing, not smaller when minimizing), and [k] is the lowest of the
    empty cells with that number.  A second call, on the board the first
    one leaves, returns the same. *)
Theorem selectMove_lowest_of_best (board : Board) (sideToMove : Player) :
  (exists i, board !! i = Some None) ->
  evaluate board = IN_PROGRESS ->
  exists (k : nat) (best : Z),
    selectMove board sideToMove = Some (board, Z.of_nat k)
    /\ board !! k = Some None
    /\ recursiveScore board (isMaximizingFor sideToMove) k = Some best
    /\ (forall j, board !! j = Some None ->
          exists s,
            recursiveScore board (isMaximizingFor sideToMove) j = Some s
            /\ if isMaximizingFor sideToMove then s <= best else best <= s)
    /\ (forall j, board !! j = Some None ->
          recursiveScore board (isMaximizingFor sideToMove) j = Some best ->
          (k <= j)%nat)
    /\ (forall board' move,
          selectMove board sideToMove = Some (board', move) ->
          selectMove board' sideToMove = Some (board', move)).
Proof.
  intros _ Hprog.
  destruct (selectMove_choice board sideToMove Hprog) as (k & Hrun & Hk & Hall).
  destruct (Hall k Hk) as (best & best' & Hbest & _).
  exists k, best. repeat split; try done.
  - intros j Hj. destruct (Hall j Hj) as (s & b & Hs & Hb & Hnb & _).
    exists s. split; [done|].
    assert (b = best) as -> by congruence.
    revert Hnb. unfold beats. destruct (isMaximizingFor sideToMove); lia.
  - intros j Hj Hs. destruct (Hall j Hj) as (s & b & Hs' & Hb & _ & Hlow).
    assert (b = best) as -> by congruence.
    assert (s = best) as -> by congruence.
    destruct (decide (j < k)%nat) as [Hjk|]; [|lia].
    specialize (Hlow Hjk). revert Hlow. unfold beats.
    destruct (isMaximizingFor sideToMove); lia.
  - intros board' move Hrun'. rewrite Hrun in Hrun'.
    injection Hrun' as <- <-. done.
Qed.

Lemma selectMove_lowest_of_best_witness :
  exists (k : nat) (best : Z),
    selectMove [Some O; Some O; None; Some O; Some X; Some X;
                None; Some X; Some X] O
    = Some ([Some O; Some O; None; Some O; Some X; Some X;
             None; Some X; Some X], Z.of_nat k)
    /\ recursiveScore
         [Some O; Some O; None; Some O; Some X; Some X;
          None; Some X; Some X] true k = Some best
    /\ recursiveScore
         [Some O; Some O; None; Some O; Some X; Some X;
          None; Some X; Some X] true 2 = Some 10
    /\ recursiveScore
         [Some O; Some O; None; Some O; Some X; Some X;
          None; Some X; Some X] true 6 = Some 10
    /\ (forall j,
          [Some O; Some O; None; Some O; Some X; Some X;
           None; Some X; Some X] !! j = Some None ->
          recursiveScore
            [Some O; Some O; None; Some O; Some X; Some X;
             None; Some X; Some X] true j = Some best ->
          (k <= j)%nat).
Proof.
  destruct (selectMove_lowest_of_best
              [Some O; Some O; None; Some O; Some X; Some X;
               None; Some X; Some X] O)
    as (k & best & Hrun & _ & Hbest & _ & Hlow & _).
  - exists 2%nat. reflexivity.
  - reflexivity.
  - exists k, best. repeat split; try assumption; reflexivity.
Defined.

(** C8.  Swapping the two marks on a board changes the outcome only by
    swapping the mark inside a [WIN]. *)
Theorem evaluate_swap (board : Board) :
  evaluate (swapBoard board) = swapOutcome (evaluate board).
Proof.
  unfold evaluate, calculateWinner.
  rewrite firstWinner_swap, everyNonNull_swap.
  destruct (firstWinner board lines); simpl; [done|].
  by destruct (everyNonNull board).
Qed.

(** C9.  When a placement yields a board that [evaluate] finds [DRAW],
    the handler that made it, [handleClick] for a click or [aiMove] for
    the computer, ends with the board all empty, no winner recorded and the
    scores as they were; it schedules no further move. *)
Theorem draw_resets_without_trace (s : State) (newBoard : Board) :
  evaluate newBoard = DRAW ->
  (forall index,
      truthy (cell (board s) index) || truthy (winner s) = false ->
      arraySet (board s) (Z.of_nat index) (Some (if xIsNext s then X else O))
      = Some newBoard ->
      exists s',
        handleClick s index = Some (s', None)
        /\ board s' = replicate 9 None
        /\ winner s' = None
        /\ scores s' = scores s)
  /\ (forall aiBoard bestMove,
        minimax (S (length aiBoard)) aiBoard true = Some (aiBoard, bestMove) ->
        arraySet aiBoard bestMove (Some O) = Some newBoard ->
        exists s',
          aiMove s aiBoard = Some s'
          /\ board s' = replicate 9 None
          /\ winner s' = None
          /\ scores s' = scores s).
Proof.
  intros [Hwin Hfull]%evaluate_DRAW. split.
  - intros index Hguard Hset. unfold handleClick.
    rewrite Hguard, Hset, Hwin, Hfull. eexists. split; [reflexivity|]. done.
  - intros aiBoard bestMove Hrun Hset. unfold aiMove.
    rewrite Hrun, Hset, Hwin, Hfull. eexists. split; [reflexivity|]. done.
Qed.

Lemma draw_resets_without_trace_witness :
  (exists s',
      handleClick
        (mkState [Some X; Some O; Some X; Some X; Some O; Some O;
                  Some O; Some X; None]
           true (mkScores 2 1) None true (Some AI)) 8
      = Some (s', None)
      /\ board s' = replicate 9 None
      /\ winner s' = None
      /\ scores s' = mkScores 2 1)
  /\ (exists s',
        aiMove
          (mkState [Some X; Some O; Some X; Some X; Some O; Some O;
                    Some O; Some X; None]
             true (mkScores 2 1) None true (Some AI))
          [Some O; Some X; Some O; Some O; Some X; Some X;
           Some X; Some O; None]
        = Some s'
        /\ board s' = replicate 9 None
        /\ winner s' = None
        /\ scores s' = mkScores 2 1).
Proof.
  split.
  - apply (draw_resets_without_trace
             (mkState [Some X; Some O; Some X; Some X; Some O; Some O;
                       Some O; Some X; None]
                true (mkScores 2 1) None true (Some AI))
             [Some X; Some O; Some X; Some X; Some O; Some O;
              Some O; Some X; Some X]); reflexivity.
  - apply (draw_resets_without_trace
             (mkState [Some X; Some O; Some X; Some X; Some O; Some O;
                       Some O; Some X; None]
                true (mkScores 2 1) None true (Some AI))
             [Some O; Some X; Some O; Some O; Some X; Some X;
              Some X; Some O; Some O]
             eq_refl) with (bestMove := 8); reflexivity.
Defined.

(** C10.  A click on an occupied cell, or any click once a winner is
    recorded, leaves the whole state as it was and schedules nothing. *)
Theorem handleClick_rejected_is_noop (s : State) (index : nat) :
  is_Some (cell (board s) index) \/ is_Some (winner s) ->
  handleClick s index = Some (s, None).
Proof.
  intros H. unfold handleClick.
  assert (truthy (cell (board s) index) || truthy (winner s) = true) as ->;
    [|done].
  destruct H as [[p ->]|[w ->]]; simpl; [done|]. apply orb_true_r.
Qed.

Lemma handleClick_rejected_is_noop_witness :
  handleClick
    (mkState [Some X; None; None; None; Some O; None; None; None; None]
       true (mkScores 0 0) None true (Some AI)) 4
  = Some (mkState [Some X; None; None; None; Some O; None; None; None; None]
            true (mkScores 0 0) None true (Some AI), None)
  /\ handleClick
       (mkState [Some X; Some X; Some X; Some O; Some O; None;
                 None; None; None]
          false (mkScores 1 0) (Some X) true (Some AI)) 5
     = Some (mkState [Some X; Some X; Some X; Some O; Some O; None;
                      None; None; None]
               false (mkScores 1 0) (Some X) true (Some AI), None).
Proof.
  split; apply handleClick_rejected_is_noop.
  - left. by eexists.
  - right. by eexists.
Defined.

(** ** Placements and the search *)

(** A line held after a mark went into an empty cell was held before, or is
    held by that mark. *)
Lemma lineHeldBy_place (board : Board) i (m w : Player) l :
  board !! i = Some None ->
  lineHeldBy (<[i := Some m]> board) l w ->
  lineHeldBy board l w \/ w = m.
Proof.
  intros Hi. pose proof (lookup_lt_Some _ _ _ Hi) as Hlt.
  destruct l as [[a b] c]. intros (Ha & Hb & Hc).
  destruct (decide (i = a)) as [<-|Hna].
  { rewrite list_lookup_insert_eq in Ha by done. right. congruence. }
  destruct (decide (i = b)) as [<-|Hnb].
  { rewrite list_lookup_insert_eq in Hb by done. right. congruence. }
  destruct (decide (i = c)) as [<-|Hnc].
  { rewrite list_lookup_insert_eq in Hc by done. right. congruence. }
  rewrite list_lookup_insert_ne in Ha, Hb, Hc by done.
  left. by repeat split.
Qed.

Lemma placement_winner (board : Board) i (m w : Player) :
  board !! i = Some None ->
  calculateWinner board = None ->
  calculateWinner (<[i := Some m]> board) = Some w ->
  w = m.
Proof.
  intros Hi Hnone Hw. unfold calculateWinner in *.
  apply firstWinner_Some in Hw as (before & l & after & Hl & Hheld & _).
  destruct (lineHeldBy_place _ _ _ _ _ Hi Hheld) as [Hold|]; [|done].
  exfalso. refine (proj1 (firstWinner_None board lines) Hnone l _ w Hold).
  rewrite Hl. apply elem_of_app. right. left.
Qed.

(** What a call of [minimax] returns, whatever fuel it had. *)
Lemma minimax_result fuel (board board' : Board) isMaximizing r :
  minimax fuel board isMaximizing = Some (board', r) ->
  board' = board
  /\ match evaluate board with
     | WIN X => r = -10
     | WIN O => r = 10
     | DRAW => r = 0
     | IN_PROGRESS => exists k : nat, r = Z.of_nat k /\ board !! k = Some None
     end.
Proof.
  intros H.
  apply (minimax_mono _ (S (fuel + emptyCells board))) in H; [|lia].
  unfold evaluate. destruct (calculateWinner board) as [[|]|] eqn:Hw.
  - rewrite minimax_S, Hw in H. by injection H as <- <-.
  - rewrite minimax_S, Hw in H. by injection H as <- <-.
  - destruct (everyNonNull board) eqn:Hf.
    + rewrite minimax_S, Hw, Hf in H. by injection H as <- <-.
    + destruct (minimax_choice (fuel + emptyCells board) board isMaximizing)
        as (k & Hk & Hek & _); [lia | done | done |].
      rewrite Hk in H. injection H as <- <-. eauto.
Qed.

(** The number the loop gets for an empty cell of a board without a
    winner: the score of a win of the side that moved, [0] for a full
    board, and a cell index otherwise. *)
Lemma recursiveScore_cases (board : Board) isMaximizing j s :
  calculateWinner board = None ->
  board !! j = Some None ->
  recursiveScore board isMaximizing j = Some s ->
  match evaluate (<[j := Some (markOf isMaximizing)]> board) with
  | WIN w => w = markOf isMaximizing /\ s = (if isMaximizing then 10 else -10)
  | DRAW => s = 0
  | IN_PROGRESS => 0 <= s < Z.of_nat (length board)
  end.
Proof.
  intros Hnone Hj. unfold recursiveScore.
  destruct (minimax _ _ _) as [[b' r]|] eqn:Hrun; [|done].
  intros [= <-]. apply minimax_result in Hrun as [_ Hr].
  destruct (evaluate _) as [|w|] eqn:He.
  - destruct Hr as (k & -> & Hk). apply lookup_lt_Some in Hk.
    rewrite length_insert in Hk. lia.
  - apply evaluate_WIN in He.
    pose proof (placement_winner _ _ _ _ Hj Hnone He) as ->.
    by destruct isMaximizing.
  - done.
Qed.

(** If some empty cell completes a line for the side to move, the cell the
    search returns completes one. *)
Lemma immediate_win_choice (board : Board) sideToMove :
  (length board <= 10)%nat ->
  evaluate board = IN_PROGRESS ->
  (exists j, board !! j = Some None
             /\ evaluate (<[j := Some sideToMove]> board) = WIN sideToMove) ->
  exists k : nat,
    minimax (S (length board)) board (isMaximizingFor sideToMove)
    = Some (board, Z.of_nat k)
    /\ board !! k = Some None
    /\ evaluate (<[k := Some sideToMove]> board) = WIN sideToMove.
Proof.
  intros Hlen Hprog (j & Hj & Hjwin).
  destruct (selectMove_choice board sideToMove Hprog) as (k & Hrun & Hk & Hall).
  exists k. split; [exact Hrun|]. split; [done|].
  destruct (Hall j Hj) as (s & best & Hs & Hbest & Hnb & _).
  apply evaluate_IN_PROGRESS in Hprog as [Hnone _].
  pose proof (recursiveScore_cases _ _ _ _ Hnone Hj Hs) as Hcj.
  pose proof (recursiveScore_cases _ _ _ _ Hnone Hk Hbest) as Hck.
  assert (Hmark : markOf (isMaximizingFor sideToMove) = sideToMove)
    by by destruct sideToMove.
  rewrite Hmark in Hcj, Hck. rewrite Hjwin in Hcj. destruct Hcj as [_ ->].
  destruct (evaluate (<[k := Some sideToMove]> board)) as [|w|] eqn:He.
  - exfalso. revert Hnb. unfold beats.
    destruct sideToMove; simpl in *; lia.
  - by destruct Hck as [-> _].
  - exfalso. subst best. revert Hnb. unfold beats.
    destruct sideToMove; simpl; lia.
Qed.

(** X1.  When a mark goes into an empty cell of a board on which
    [calculateWinner] finds no winner, the winner it finds afterwards, if
    any, is that mark. *)
Theorem placement_winner_is_the_mover (board : Board) (i : nat)
    (m w : Player) :
  board !! i = Some None ->
  calculateWinner board = None ->
  calculateWinner (<[i := Some m]> board) = Some w ->
  w = m.
Proof. apply placement_winner. Qed.

Lemma placement_winner_is_the_mover_witness :
  calculateWinner
    (<[2%nat := Some X]>
       [Some X; Some X; None; Some O; Some O; None; None; None; None])
  = Some X
  /\ X = X.
Proof.
  split; [reflexivity|].
  apply (placement_winner_is_the_mover
           [Some X; Some X; None; Some O; Some O; None; None; None; None]
           2 X X); reflexivity.
Defined.


(** X3.  On an undecided board of 9 cells, if some empty cell completes a
    line for the side to move, [selectMove] returns an empty cell that
    completes a line for it: either side takes a win in one move. *)
Theorem selectMove_takes_immediate_win (board : Board)
    (sideToMove : Player) :
  length board = 9%nat ->
  evaluate board = IN_PROGRESS ->
  (exists j, board !! j = Some None
             /\ evaluate (<[j := Some sideToMove]> board) = WIN sideToMove) ->
  exists k : nat,
    selectMove board sideToMove = Some (board, Z.of_nat k)
    /\ board !! k = Some None
    /\ evaluate (<[k := Some sideToMove]> board) = WIN sideToMove.
Proof.
  intros Hlen. apply immediate_win_choice. lia.
Qed.

Lemma selectMove_takes_immediate_win_witness :
  exists k : nat,
    selectMove [Some X; Some X; None; Some O; Some O; None; None; None; None]
      O
    = Some ([Some X; Some X; None; Some O; Some O; None; None; None; None],
            Z.of_nat k)
    /\ [Some X; Some X; None; Some O; Some O; None; None; None; None] !! k
       = Some None
    /\ evaluate
         (<[k := Some O]>
            [Some X; Some X; None; Some O; Some O; None; None; None; None])
       = WIN O.
Proof.
  apply (selectMove_takes_immediate_win
           [Some X; Some X; None; Some O; Some O; None; None; None; None] O).
  - reflexivity.
  - reflexivity.
  - exists 5%nat. split; reflexivity.
Defined.

(** ** The handlers *)

Lemma arraySet_of_nat (board board' : Board) (i : nat) v :
  arraySet board (Z.of_nat i) v = Some board'
  <-> (i < length board)%nat /\ board' = <[i := v]> board.
Proof.
  unfold arraySet. rewrite Nat2Z.id.
  destruct (0 <=? Z.of_nat i) eqn:H0; [|lia].
  destruct (Z.of_nat i <? Z.of_nat (length board)) eqn:Hlt; simpl.
  - apply Z.ltb_lt in Hlt. split.
    + intros [= <-]. split; [lia | done].
    + by intros [_ ->].
  - apply Z.ltb_ge in Hlt. split; [done|]. intros [? _]. lia.
Qed.

Lemma everyNonNull_emptyCells (board : Board) :
  everyNonNull board = true -> emptyCells board = 0%nat.
Proof.
  unfold everyNonNull, emptyCells.
  induction board as [|[m|] rest IH]; simpl; intros H; try done.
  rewrite filter_cons_False by done. auto.
Qed.

(** The cases of a run of [handleClick]: the click is rejected, or the
    mover's mark goes into the clicked cell, which was empty, and the
    handler goes on according to the board it obtained. *)
Lemma handleClick_cases (s s' : State) index t :
  handleClick s index = Some (s', t) ->
  (truthy (cell (board s) index) || truthy (winner s) = true
   /\ s' = s /\ t = None)
  \/ (winner s = None
      /\ board s !! index = Some None
      /\ match calculateWinner (<[index := Some (mover s)]> (board s)) with
         | Some w =>
             s' = updateScores w
                    (setWinner (Some w)
                       (setXIsNext (negb (xIsNext s))
                          (setBoard (<[index := Some (mover s)]> (board s))
                             s)))
             /\ t = None
         | None =>
             if everyNonNull (<[index := Some (mover s)]> (board s)) then
               s' = startNewGame
                      (setWinner None
                         (setXIsNext (negb (xIsNext s))
                            (setBoard
                               (<[index := Some (mover s)]> (board s)) s)))
               /\ t = None
             else
               s' = setXIsNext (negb (xIsNext s))
                      (setBoard (<[index := Some (mover s)]> (board s)) s)
               /\ t = match gameMode s with
                      | Some AI =>
                          Some (<[index := Some (mover s)]> (board s))
                      | _ => None
                      end
         end).
Proof.
  unfold handleClick, mover.
  destruct (truthy (cell (board s) index) || truthy (winner s)) eqn:Hguard.
  { intros [= <- <-]. by left. }
  apply orb_false_iff in Hguard as [Hcell Hwin].
  destruct (arraySet _ _ _) as [newBoard|] eqn:Hset; [|done].
  apply arraySet_of_nat in Hset as [Hlt ->].
  intros H. right.
  split; [by destruct (winner s)|]. split.
  { unfold cell in Hcell.
    destruct (lookup_lt_is_Some_2 (board s) index Hlt) as [c Hc].
    rewrite Hc in Hcell |- *. by destruct c. }
  destruct (calculateWinner _) as [w|].
  - by injection H as <- <-.
  - destruct (everyNonNull _).
    + by injection H as <- <-.
    + destruct (gameMode s) as [[|]|]; by injection H as <- <-.
Qed.

(** A click on a cell of the board always runs to its end. *)
Lemma handleClick_defined (s : State) index :
  (index < length (board s))%nat ->
  exists s' t, handleClick s index = Some (s', t).
Proof.
  intros Hlt. unfold handleClick.
  destruct (truthy _ || truthy _); [eauto|].
  destruct (arraySet _ _ _) as [newBoard|] eqn:Hset.
  - destruct (calculateWinner _); [eauto|].
    destruct (everyNonNull _); [eauto|].
    destruct (gameMode s) as [[|]|]; eauto.
  - pose proof (proj2 (arraySet_of_nat (board s) _ index
                         (Some (if xIsNext s then X else O)))
                  (conj Hlt eq_refl)) as E.
    rewrite E in Hset. discriminate.
Qed.

(** What [aiMove] does on an undecided board. *)
Lemma aiMove_effect (s : State) (newBoard : Board) :
  evaluate newBoard = IN_PROGRESS ->
  exists (k : nat) (s' : State),
    minimax (S (length newBoard)) newBoard true
    = Some (newBoard, Z.of_nat k)
    /\ aiMove s newBoard = Some s'
    /\ newBoard !! k = Some None
    /\ xIsNext s' = true
    /\ match evaluate (<[k := Some O]> newBoard) with
       | WIN w =>
           w = O
           /\ board s' = <[k := Some O]> newBoard
           /\ winner s' = Some O
           /\ scores s'
              = mkScores (scoreX (scores s)) (scoreO (scores s) + 1)
       | DRAW =>
           board s' = emptyBoard /\ winner s' = None
           /\ scores s' = scores s
       | IN_PROGRESS =>
           board s' = <[k := Some O]> newBoard /\ winner s' = winner s
           /\ scores s' = scores s
       end.
Proof.
  intros Hprog.
  destruct (selectMove_choice newBoard O Hprog) as (k & Hrun & Hk & _).
  unfold selectMove, isMaximizingFor in Hrun.
  apply evaluate_IN_PROGRESS in Hprog as [Hnone _].
  assert (Hset : arraySet newBoard (Z.of_nat k) (Some O)
                 = Some (<[k := Some O]> newBoard)).
  { apply arraySet_of_nat. split; [|done]. by apply lookup_lt_Some in Hk. }
  exists k. unfold aiMove. rewrite Hrun, Hset. unfold evaluate.
  destruct (calculateWinner (<[k := Some O]> newBoard)) as [w|] eqn:Hw.
  - pose proof (placement_winner _ _ _ _ Hk Hnone Hw) as ->.
    eexists. by repeat split.
  - destruct (everyNonNull (<[k := Some O]> newBoard));
      eexists; by repeat split.
Qed.

Lemma aiMove_tally (s s' : State) (newBoard : Board) :
  aiMove s newBoard = Some s' -> TallyStep s s'.
Proof.
  unfold aiMove, TallyStep.
  destruct (minimax _ _ _) as [[board1 bestMove]|]; [|done].
  destruct (arraySet _ _ _) as [board2|]; [|done].
  destruct (calculateWinner board2) as [w|] eqn:Hw.
  - intros [= <-]. right. exists w. by destruct w.
  - destruct (everyNonNull board2); intros [= <-]; by left.
Qed.

Lemma handleClick_tally (s s' : State) index t :
  handleClick s index = Some (s', t) -> TallyStep s s'.
Proof.
  intros [(_ & -> & _)|(_ & _ & H)]%handleClick_cases; [by left|].
  unfold TallyStep.
  destruct (calculateWinner _) as [w|] eqn:Hw.
  - destruct H as [-> _]. right. exists w. by destruct w.
  - destruct (everyNonNull _); destruct H as [-> _]; by left.
Qed.

Lemma fire_WellFormed (c c' : Config) (e : Event) :
  WellFormed c -> fire c e = Some c' -> WellFormed c'.
Proof.
  intros [Hlen Htimers]. destruct e as [index|n| | |mode]; simpl.
  - destruct (index <? length (board (current c)))%nat; [|done].
    destruct (handleClick (current c) index) as [[s' t]|] eqn:Hclick;
      [|done].
    apply handleClick_cases in Hclick
      as [(_ & -> & ->)|(_ & Hcell & H)].
    { intros [= <-]. by split. }
    destruct (calculateWinner _) as [w|] eqn:Hw.
    + destruct H as [-> ->]. intros [= <-]. split; [|done].
      simpl. by rewrite length_insert.
    + destruct (everyNonNull _) eqn:Hfull.
      * destruct H as [-> ->]. intros [= <-]. by split.
      * destruct H as [-> ->].
        assert (Hnew : length (<[index := Some (mover (current c))]>
                                 (board (current c))) = 9%nat)
          by by rewrite length_insert.
        destruct (gameMode (current c)) as [[|]|]; intros [= <-];
          (split; [done|]); simpl; [|done|done].
        apply Forall_app. split; [done|].
        apply Forall_singleton. split; [done|].
        by apply evaluate_IN_PROGRESS.
  - destruct (timers c !! n) as [newBoard|] eqn:Hn; [|done].
    destruct (Forall_lookup_1 _ _ _ _ Htimers Hn) as [Hnew Hprog].
    destruct (aiMove_effect (current c) newBoard Hprog)
      as (k & s' & _ & -> & _ & _ & H).
    intros [= <-]. split; [|by apply Forall_delete]. simpl.
    destruct (evaluate (<[k := Some O]> newBoard)).
    + destruct H as (-> & _). by rewrite length_insert.
    + destruct H as (_ & -> & _). by rewrite length_insert.
    + by destruct H as (-> & _).
  - intros [= <-]. by split.
  - intros [= <-]. by split.
  - intros [= <-]. by split.
Qed.

Lemma fire_defined (c : Config) (e : Event) :
  WellFormed c -> available c e = true -> exists c', fire c e = Some c'.
Proof.
  intros [Hlen Htimers]. destruct e as [index|n| | |mode]; simpl; eauto.
  - intros Hlt. rewrite Hlt. apply Nat.ltb_lt in Hlt.
    destruct (handleClick_defined (current c) index Hlt) as (s' & t & ->).
    destruct t; eauto.
  - intros Hlt%Nat.ltb_lt.
    destruct (lookup_lt_is_Some_2 (timers c) n Hlt) as [newBoard Hn].
    rewrite Hn.
    destruct (Forall_lookup_1 _ _ _ _ Htimers Hn) as [_ Hprog].
    destruct (aiMove_effect (current c) newBoard Hprog)
      as (k & s' & _ & -> & _).
    eauto.
Qed.

Lemma run_WellFormed (es : list Event) : forall c c',
  WellFormed c -> run c es = Some c' -> WellFormed c'.
Proof.
  induction es as [|e rest IH]; intros c c' Hwf; simpl.
  - by intros [= <-].
  - destruct (fire c e) as [c1|] eqn:Hfire; [|done].
    apply IH. by eapply fire_WellFormed.
Qed.

(** ** Further properties of the session *)

(** X4.  On an undecided board [aiMove] runs to its end: it puts one
    ["O"] into a cell that was empty and hands the turn to ["X"].  If that
    completes a line, the line is one of ["O"], the board is kept, ["O"] is
    recorded as winner and gets one point; if it fills the board without a
    line, the board is cleared and nothing is recorded; otherwise only the
    board and the turn change. *)
Theorem aiMove_places_one_mark (s : State) (newBoard : Board) :
  evaluate newBoard = IN_PROGRESS ->
  exists (k : nat) (s' : State),
    aiMove s newBoard = Some s'
    /\ newBoard !! k = Some None
    /\ xIsNext s' = true
    /\ match evaluate (<[k := Some O]> newBoard) with
       | WIN w =>
           w = O
           /\ board s' = <[k := Some O]> newBoard
           /\ winner s' = Some O
           /\ scores s'
              = mkScores (scoreX (scores s)) (scoreO (scores s) + 1)
       | DRAW =>
           board s' = emptyBoard /\ winner s' = None
           /\ scores s' = scores s
       | IN_PROGRESS =>
           board s' = <[k := Some O]> newBoard /\ winner s' = winner s
           /\ scores s' = scores s
       end.
Proof.
  intros Hprog.
  destruct (aiMove_effect s newBoard Hprog) as (k & s' & _ & H).
  by exists k, s'.
Qed.

Lemma aiMove_places_one_mark_witness :
  exists (k : nat) (s' : State),
    aiMove (mkState [Some X; None; None; None; None; None; None; None; None]
              false (mkScores 0 0) None true (Some AI))
      [Some X; Some O; Some X; Some O; Some X; Some X; Some O; None; None]
    = Some s'
    /\ [Some X; Some O; Some X; Some O; Some X; Some X; Some O; None; None]
         !! k = Some None
    /\ xIsNext s' = true.
Proof.
  destruct (aiMove_places_one_mark
              (mkState [Some X; None; None; None; None; None; None; None; None]
                 false (mkScores 0 0) None true (Some AI))
              [Some X; Some O; Some X; Some O; Some X; Some X; Some O;
               None; None] eq_refl)
    as (k & s' & Hrun & Hk & Hturn & _).
  by exists k, s'.
Defined.

(** X5.  If on an undecided board of 9 cells some empty cell completes a
    line of ["O"], [aiMove] leaves a board with a line of ["O"], records
    ["O"] as winner and adds one point to the score of ["O"] only. *)
Theorem aiMove_takes_immediate_win (s : State) (newBoard : Board) :
  length newBoard = 9%nat ->
  evaluate newBoard = IN_PROGRESS ->
  (exists j, newBoard !! j = Some None
             /\ evaluate (<[j := Some O]> newBoard) = WIN O) ->
  exists s',
    aiMove s newBoard = Some s'
    /\ evaluate (board s') = WIN O
    /\ winner s' = Some O
    /\ scoreOf O (scores s') = scoreOf O (scores s) + 1
    /\ scoreOf X (scores s') = scoreOf X (scores s).
Proof.
  intros Hlen Hprog Hwin.
  destruct (immediate_win_choice newBoard O) as (k & Hrun & Hk & Hkwin);
    [lia | done | done |].
  unfold isMaximizingFor in Hrun. unfold aiMove. rewrite Hrun.
  assert (Hset : arraySet newBoard (Z.of_nat k) (Some O)
                 = Some (<[k := Some O]> newBoard)).
  { apply arraySet_of_nat. split; [|done]. by apply lookup_lt_Some in Hk. }
  rewrite Hset. pose proof Hkwin as Hw. apply evaluate_WIN in Hw.
  rewrite Hw. eexists. by repeat split.
Qed.

Lemma aiMove_takes_immediate_win_witness :
  exists s',
    aiMove (mkState
              [Some X; Some X; None; Some O; Some O; None; None; None; None]
              false (mkScores 3 1) None true (Some AI))
      [Some X; Some X; None; Some O; Some O; None; None; None; None]
    = Some s'
    /\ evaluate (board s') = WIN O
    /\ winner s' = Some O
    /\ scoreOf O (scores s') = 1 + 1
    /\ scoreOf X (scores s') = 3.
Proof.
  apply (aiMove_takes_immediate_win
           (mkState
              [Some X; Some X; None; Some O; Some O; None; None; None; None]
              false (mkScores 3 1) None true (Some AI))
           [Some X; Some X; None; Some O; Some O; None; None; None; None]).
  - reflexivity.
  - reflexivity.
  - exists 5%nat. split; reflexivity.
Defined.

(** X6.  When [handleClick] sets the timer for [aiMove], the game is in AI
    mode, no winner is recorded, and the board handed over is the new board
    of the state and is undecided; so [aiMove] started on it runs to its
    end. *)
Theorem handleClick_schedules_valid_ai_move (s s' : State) (index : nat)
    (newBoard : Board) :
  handleClick s index = Some (s', Some newBoard) ->
  gameMode s = Some AI
  /\ board s' = newBoard
  /\ winner s' = None
  /\ evaluate newBoard = IN_PROGRESS
  /\ exists s'', aiMove s' newBoard = Some s''.
Proof.
  intros [(_ & _ & [=])|(Hwin & _ & H)]%handleClick_cases.
  destruct (calculateWinner _) as [w|] eqn:Hw; [by destruct H|].
  destruct (everyNonNull _) eqn:Hfull; [by destruct H|].
  destruct H as [-> Ht].
  destruct (gameMode s) as [[|]|]; try done.
  injection Ht as Ht. subst newBoard.
  assert (Hprog : evaluate (<[index := Some (mover s)]> (board s))
                  = IN_PROGRESS) by by apply evaluate_IN_PROGRESS.
  split; [done|]. split; [done|]. split; [exact Hwin|]. split; [done|].
  destruct (aiMove_effect
              (setXIsNext (negb (xIsNext s))
                 (setBoard (<[index := Some (mover s)]> (board s)) s))
              _ Hprog) as (k & s'' & _ & Hrun & _).
  eauto.
Qed.

Lemma handleClick_schedules_valid_ai_move_witness :
  gameMode (mkState emptyBoard true (mkScores 0 0) None true (Some AI))
  = Some AI
  /\ board (mkState (<[6%nat := Some X]> emptyBoard) false (mkScores 0 0)
              None true (Some AI))
     = <[6%nat := Some X]> emptyBoard
  /\ winner (mkState (<[6%nat := Some X]> emptyBoard) false (mkScores 0 0)
               None true (Some AI)) = None
  /\ evaluate (<[6%nat := Some X]> emptyBoard) = IN_PROGRESS
  /\ exists s'',
      aiMove (mkState (<[6%nat := Some X]> emptyBoard) false (mkScores 0 0)
                None true (Some AI))
        (<[6%nat := Some X]> emptyBoard)
      = Some s''.
Proof.
  apply (handleClick_schedules_valid_ai_move
           (mkState emptyBoard true (mkScores 0 0) None true (Some AI))
           _ 6).
  reflexivity.
Defined.

(** X7.  A click on a cell of the board, that is with [index] below
    [board.length] as every cell button passes it, runs [handleClick] to
    its end with one of three outcomes.  It changes nothing.  Or the
    clicked cell was empty and the new board is the old one with the
    mover's mark in that cell, so it has one empty cell less.  Or the board
    is cleared: then the clicked cell was the only empty one and the mark
    completed no line. *)
Theorem handleClick_fills_only_the_clicked_cell (s : State) (index : nat) :
  (index < length (board s))%nat ->
  exists (s' : State) (t : option Board),
    handleClick s index = Some (s', t)
    /\ (s' = s
        \/ (board s !! index = Some None
            /\ board s' = <[index := Some (mover s)]> (board s)
            /\ S (emptyCells (board s')) = emptyCells (board s))
        \/ (board s !! index = Some None
            /\ emptyCells (board s) = 1%nat
            /\ calculateWinner (<[index := Some (mover s)]> (board s))
               = None
            /\ board s' = emptyBoard)).
Proof.
  intros Hlt.
  destruct (handleClick_defined s index Hlt) as (s' & t & Hrun).
  exists s', t. split; [exact Hrun|].
  apply handleClick_cases in Hrun as [(_ & -> & _)|(_ & Hcell & H)];
    [by left|].
  right.
  pose proof (emptyCells_place (board s) index (mover s) Hcell) as Hcount.
  destruct (calculateWinner _) as [w|] eqn:Hw.
  - destruct H as [-> _]. left. by repeat split.
  - destruct (everyNonNull _) eqn:Hfull.
    + destruct H as [-> _]. right. repeat split; try done.
      apply everyNonNull_emptyCells in Hfull. lia.
    + destruct H as [-> _]. left. by repeat split.
Qed.

Lemma handleClick_fills_only_the_clicked_cell_witness :
  exists (s' : State) (t : option Board),
    handleClick
      (mkState [Some X; None; None; None; Some O; None; None; None; None]
         true (mkScores 0 0) None true (Some TwoPlayers)) 8
    = Some (s', t)
    /\ (s' = mkState
               [Some X; None; None; None; Some O; None; None; None; None]
               true (mkScores 0 0) None true (Some TwoPlayers)
        \/ ([Some X; None; None; None; Some O; None; None; None; None]
              !! 8%nat = Some None
            /\ board s'
               = [Some X; None; None; None; Some O; None; None; None;
                  Some X]
            /\ S (emptyCells (board s')) = 7%nat)
        \/ ([Some X; None; None; None; Some O; None; None; None; None]
              !! 8%nat = Some None
            /\ 7%nat = 1%nat
            /\ calculateWinner
                 [Some X; None; None; None; Some O; None; None; None;
                  Some X] = None
            /\ board s' = emptyBoard)).
Proof.
  apply (handleClick_fills_only_the_clicked_cell
           (mkState
              [Some X; None; None; None; Some O; None; None; None; None]
              true (mkScores 0 0) None true (Some TwoPlayers)) 8).
  simpl. lia.
Defined.

(** X8.  A run of [handleClick] or of [aiMove] leaves the scores as they
    were, or adds exactly one point to one player and none to the other;
    in the second case that player is recorded as winner and has a line on
    the board the handler leaves. *)
Theorem handler_scores_one_point_per_win (s s' : State) :
  (exists index t, handleClick s index = Some (s', t))
  \/ (exists newBoard, aiMove s newBoard = Some s') ->
  TallyStep s s'.
Proof.
  intros [(index & t & H)|(newBoard & H)].
  - by eapply handleClick_tally.
  - by eapply aiMove_tally.
Qed.

Lemma handler_scores_one_point_per_win_witness :
  TallyStep
    (mkState [Some X; Some X; None; Some O; Some O; None; None; None; None]
       true (mkScores 0 0) None true (Some TwoPlayers))
    (mkState [Some X; Some X; Some X; Some O; Some O; None; None; None; None]
       false (mkScores 1 0) (Some X) true (Some TwoPlayers)).
Proof.
  apply handler_scores_one_point_per_win.
  left. exists 2%nat, None. reflexivity.
Defined.

(** X9.  If the recorded winner is the winner [calculateWinner] finds on
    the board, this is still so after a run of [handleClick]. *)
Theorem handleClick_keeps_winner_consistent (s s' : State) (index : nat)
    (t : option Board) :
  winner s = calculateWinner (board s) ->
  handleClick s index = Some (s', t) ->
  winner s' = calculateWinner (board s').
Proof.
  intros Hcons [(_ & -> & _)|(Hwin & _ & H)]%handleClick_cases; [done|].
  destruct (calculateWinner (<[index := Some (mover s)]> (board s)))
    as [w|] eqn:Hw.
  - destruct H as [-> _]. simpl. by rewrite Hw.
  - destruct (everyNonNull _).
    + by destruct H as [-> _].
    + destruct H as [-> _]. simpl. by rewrite Hw.
Qed.

Lemma handleClick_keeps_winner_consistent_witness :
  winner (mkState
            [Some X; Some X; Some X; Some O; Some O; None; None; None; None]
            false (mkScores 1 0) (Some X) true (Some TwoPlayers))
  = calculateWinner
      [Some X; Some X; Some X; Some O; Some O; None; None; None; None].
Proof.
  apply (handleClick_keeps_winner_consistent
           (mkState
              [Some X; Some X; None; Some O; Some O; None; None; None; None]
              true (mkScores 0 0) None true (Some TwoPlayers))
           (mkState
              [Some X; Some X; Some X; Some O; Some O; None; None; None; None]
              false (mkScores 1 0) (Some X) true (Some TwoPlayers))
           2 None); reflexivity.
Defined.

(** X10.  From a state whose recorded winner is the one on the board, a
    click never changes the score of the player who is not to move; and if
    it changes the scores at all, the player to move is recorded as
    winner. *)
Theorem click_credits_only_the_clicker (s s' : State) (index : nat)
    (t : option Board) :
  winner s = calculateWinner (board s) ->
  handleClick s index = Some (s', t) ->
  scoreOf (other (mover s)) (scores s')
  = scoreOf (other (mover s)) (scores s)
  /\ (scores s' <> scores s -> winner s' = Some (mover s)).
Proof.
  intros Hcons [(_ & -> & _)|(Hwin & Hcell & H)]%handleClick_cases;
    [by split|].
  rewrite Hwin in Hcons. symmetry in Hcons.
  destruct (calculateWinner (<[index := Some (mover s)]> (board s)))
    as [w|] eqn:Hw.
  - pose proof (placement_winner _ _ _ _ Hcell Hcons Hw) as ->.
    destruct H as [-> _]. split; [|done].
    simpl. by destruct (mover s).
  - destruct (everyNonNull _); by destruct H as [-> _].
Qed.

Lemma click_credits_only_the_clicker_witness :
  scoreOf O (mkScores 1 0) = scoreOf O (mkScores 0 0)
  /\ (mkScores 1 0 <> mkScores 0 0 -> Some X = Some X).
Proof.
  apply (click_credits_only_the_clicker
           (mkState
              [Some X; Some X; None; Some O; Some O; None; None; None; None]
              true (mkScores 0 0) None true (Some TwoPlayers))
           (mkState
              [Some X; Some X; Some X; Some O; Some O; None; None; None; None]
              false (mkScores 1 0) (Some X) true (Some TwoPlayers))
           2 None); reflexivity.
Defined.

(** X11.  After [startNewGame] a click on any of the 9 cells puts an
    ["X"] on the empty board.  After [resetGame] and [startGame] it puts
    the mark of the player who was to move before the reset, because
    [resetGame] leaves [xIsNext] as it is; in AI mode the timer for
    [aiMove] is set with that board, in two-player mode none is set. *)
Theorem first_mark_after_restart (s : State) (mode : GameMode)
    (index : nat) :
  (index < 9)%nat ->
  (exists s' t,
      handleClick (startNewGame s) index = Some (s', t)
      /\ board s' = <[index := Some X]> emptyBoard)
  /\ (exists s' t,
        handleClick (startGame mode (resetGame s)) index = Some (s', t)
        /\ board s' = <[index := Some (mover s)]> emptyBoard
        /\ t = match mode with
               | AI => Some (<[index := Some (mover s)]> emptyBoard)
               | TwoPlayers => None
               end).
Proof.
  intros Hlt. destruct s as [b x sc w g gm].
  do 9 (destruct index as [|index];
        [split;
         [destruct gm as [[|]|]; eexists _, _; split; reflexivity
         |destruct x, mode; eexists _, _; repeat split; reflexivity]|]).
  lia.
Qed.

Lemma first_mark_after_restart_witness :
  exists s' t,
    handleClick
      (startGame AI
         (resetGame
            (mkState
               [Some X; None; None; None; None; None; None; None; None]
               false (mkScores 0 0) None true (Some TwoPlayers)))) 4
    = Some (s', t)
    /\ board s'
       = [None; None; None; None; Some O; None; None; None; None]
    /\ t = Some [None; None; None; None; Some O; None; None; None; None].
Proof.
  apply (first_mark_after_restart
           (mkState [Some X; None; None; None; None; None; None; None; None]
              false (mkScores 0 0) None true (Some TwoPlayers))
           AI 4).
  lia.
Defined.

(** X12.  Start from the initial state with no timer pending and let any
    sequence of events run: clicks on cells, timers firing, clicks on
    "Start New Game", "Select Mode" and the mode buttons.  In the
    configuration reached the board has 9 cells and every pending timer
    holds an undecided board of 9 cells; and every event that can occur
    there runs its handler to the end, so [minimax] is only ever started
    by [aiMove] on an undecided board and the cell it returns is written
    inside the board. *)
Theorem reachable_configurations_are_well_formed (es : list Event)
    (c : Config) :
  run (mkConfig initialState []) es = Some c ->
  WellFormed c
  /\ forall e, available c e = true -> exists c', fire c e = Some c'.
Proof.
  intros Hrun.
  assert (Hwf : WellFormed c).
  { eapply run_WellFormed; [|exact Hrun]. split; [done|]. constructor. }
  split; [done|]. intros e. by apply fire_defined.
Qed.

Lemma reachable_configurations_are_well_formed_witness :
  WellFormed
    (mkConfig
       (mkState [Some O; None; None; None; None; None; Some X; None; None]
          true (mkScores 0 0) None true (Some AI))
       [])
  /\ forall e,
      available
        (mkConfig
           (mkState
              [Some O; None; None; None; None; None; Some X; None; None]
              true (mkScores 0 0) None true (Some AI))
           []) e = true ->
      exists c',
        fire
          (mkConfig
             (mkState
                [Some O; None; None; None; None; None; Some X; None; None]
                true (mkScores 0 0) None true (Some AI))
             []) e = Some c'.
Proof.
  apply (reachable_configurations_are_well_formed
           [ClickMode AI; ClickCell 6; TimerFires 0]).
  vm_compute. reflexivity.
Defined.

Lemma emptyCells_zero_full (board : Board) :
  emptyCells board = 0%nat -> everyNonNull board = true.
Proof.
  unfold everyNonNull, emptyCells.
  induction board as [|[m|] rest IH]; simpl; intros H; try done.
  rewrite filter_cons_False in H by done. auto.
Qed.

Lemma TallyStep_nonneg (s s' : State) :
  TallyStep s s' ->
  0 <= scoreX (scores s) /\ 0 <= scoreO (scores s) ->
  0 <= scoreX (scores s') /\ 0 <= scoreO (scores s').
Proof.
  intros [->|(w & _ & _ & Hw & Ho)]; [done|].
  destruct w; simpl in *; lia.
Qed.

Lemma handleClick_mode (s s' : State) index t :
  handleClick s index = Some (s', t) ->
  gameStarted s' = gameStarted s /\ gameMode s' = gameMode s.
Proof.
  intros [(_ & -> & _)|(_ & _ & H)]%handleClick_cases; [done|].
  destruct (calculateWinner _); [by destruct H as [-> _]|].
  destruct (everyNonNull _); by destruct H as [-> _].
Qed.

Lemma aiMove_mode (s s' : State) (newBoard : Board) :
  aiMove s newBoard = Some s' ->
  gameStarted s' = gameStarted s /\ gameMode s' = gameMode s.
Proof.
  unfold aiMove.
  destruct (minimax _ _ _) as [[board1 bestMove]|]; [|done].
  destruct (arraySet _ _ _) as [board2|]; [|done].
  destruct (calculateWinner board2); [by intros [= <-]|].
  destruct (everyNonNull board2); by intros [= <-].
Qed.

Lemma run_scores_and_mode (es : list Event) : forall c c',
  run c es = Some c' ->
  0 <= scoreX (scores (current c)) /\ 0 <= scoreO (scores (current c)) ->
  (gameStarted (current c) = true <-> gameMode (current c) <> None) ->
  (0 <= scoreX (scores (current c')) /\ 0 <= scoreO (scores (current c')))
  /\ (gameStarted (current c') = true <-> gameMode (current c') <> None).
Proof.
  induction es as [|e rest IH]; intros c c'; simpl.
  - by intros [= <-].
  - destruct (fire c e) as [c1|] eqn:Hfire; [|done].
    intros Hrun Hscores Hmode. apply (IH c1 c' Hrun).
    + destruct e as [index|n| | |mode]; simpl in Hfire.
      * destruct (index <? length (board (current c)))%nat; [|done].
        destruct (handleClick (current c) index) as [[s' t]|] eqn:Hclick;
          [|done].
        apply handleClick_tally in Hclick.
        destruct t; injection Hfire as <-; by eapply TallyStep_nonneg.
      * destruct (timers c !! n) as [newBoard|]; [|done].
        destruct (aiMove (current c) newBoard) as [s'|] eqn:Hai; [|done].
        apply aiMove_tally in Hai.
        injection Hfire as <-. by eapply TallyStep_nonneg.
      * by injection Hfire as <-.
      * by injection Hfire as <-.
      * by injection Hfire as <-.
    + destruct e as [index|n| | |mode]; simpl in Hfire.
      * destruct (index <? length (board (current c)))%nat; [|done].
        destruct (handleClick (current c) index) as [[s' t]|] eqn:Hclick;
          [|done].
        apply handleClick_mode in Hclick as [Hg Hm].
        destruct t; injection Hfire as <-; simpl; by rewrite Hg, Hm.
      * destruct (timers c !! n) as [newBoard|]; [|done].
        destruct (aiMove (current c) newBoard) as [s'|] eqn:Hai; [|done].
        apply aiMove_mode in Hai as [Hg Hm].
        injection Hfire as <-. simpl. by rewrite Hg, Hm.
      * by injection Hfire as <-.
      * injection Hfire as <-. simpl. split; [done|]. by intros [].
      * injection Hfire as <-. by simpl.
Qed.

(** X13.  In every configuration reached from the initial state by any
    sequence of events, neither score is negative, and the game counts as
    started exactly when a mode is chosen. *)
Theorem reachable_scores_and_mode (es : list Event) (c : Config) :
  run (mkConfig initialState []) es = Some c ->
  0 <= scoreX (scores (current c))
  /\ 0 <= scoreO (scores (current c))
  /\ (gameStarted (current c) = true <-> gameMode (current c) <> None).
Proof.
  intros Hrun.
  destruct (run_scores_and_mode es _ _ Hrun) as [[Hx Ho] Hmode]; done.
Qed.

Lemma reachable_scores_and_mode_witness :
  0 <= scoreX (mkScores 1 0)
  /\ 0 <= scoreO (mkScores 1 0)
  /\ (true = true <-> Some TwoPlayers <> None).
Proof.
  apply (reachable_scores_and_mode
           [ClickMode TwoPlayers; ClickCell 0; ClickCell 3; ClickCell 1;
            ClickCell 4; ClickCell 2]
           (mkConfig
              (mkState
                 [Some X; Some X; Some X; Some O; Some O; None;
                  None; None; None]
                 false (mkScores 1 0) (Some X) true (Some TwoPlayers))
              [])).
  vm_compute. reflexivity.
Defined.

(** X14.  When a mark goes into the only empty cell of a board without a
    winner, [evaluate] finds a win of that mark or a draw, never a game in
    progress. *)
Theorem filling_last_cell_decides (board : Board) (i : nat) (m : Player) :
  emptyCells board = 1%nat ->
  board !! i = Some None ->
  calculateWinner board = None ->
  evaluate (<[i := Some m]> board) = WIN m
  \/ evaluate (<[i := Some m]> board) = DRAW.
Proof.
  intros Hone Hi Hnone.
  pose proof (emptyCells_place board i m Hi) as Hcount.
  assert (Hfull : everyNonNull (<[i := Some m]> board) = true)
    by (apply emptyCells_zero_full; lia).
  unfold evaluate. rewrite Hfull.
  destruct (calculateWinner (<[i := Some m]> board)) as [w|] eqn:Hw.
  - left. by rewrite (placement_winner _ _ _ _ Hi Hnone Hw).
  - by right.
Qed.

Lemma filling_last_cell_decides_witness :
  evaluate
    (<[8%nat := Some X]>
       [Some X; Some O; Some X; Some X; Some O; Some O;
        Some O; Some X; None]) = WIN X
  \/ evaluate
       (<[8%nat := Some X]>
          [Some X; Some O; Some X; Some X; Some O; Some O;
           Some O; Some X; None]) = DRAW.
Proof.
  apply (filling_last_cell_decides
           [Some X; Some O; Some X; Some X; Some O; Some O;
            Some O; Some X; None] 8 X); reflexivity.
Defined.
